(** * FALL: the lost-and-found listing service (main.py)

    A shallow embedding of the request handlers of [main.py] over an
    explicit model of the relational store they talk to.  Each handler is
    a computation in a state-and-exception monad over the store; [await]
    is sequencing.  The ORM calls the handlers make ([Annonce.create],
    [Annonce.get], [Annonce.filter(...).update], ...) are the primitive
    operations of that monad. *)

From stdpp Require Import gmap strings list fin_maps pretty.

Local Open Scope string_scope.
Local Open Scope Z_scope.

(** ** Values *)

(** A loosely typed scalar, as carried by the descriptive fields of a
    record and rendered by an f-string. *)
Inductive scalar :=
  | SNone
  | SBool (b : bool)
  | SInt (z : Z)
  | SStr (s : string).

(** Python's [str(v)], which is what [f"{v}"] interpolates. *)
Definition str (v : scalar) : string :=
  match v with
  | SNone => "None"
  | SBool true => "True"
  | SBool false => "False"
  | SInt z => pretty z
  | SStr s => s
  end.

(** [datetime.now()] is read from the environment; handlers that consult
    the clock take the instant as an argument. *)
Definition datetime := Z.

(** Python's [bool(n)] on an integer and its inverse [int(b)]: the handlers
    write the [actif] flag as the integers 1 and 0. *)
Definition flag (n : Z) : bool := negb (n =? 0).
Definition int_of_flag (b : bool) : Z := if b then 1 else 0.

(** Python's [needle in s] on strings. *)
Fixpoint starts_with (needle s : string) : bool :=
  match needle, s with
  | EmptyString, _ => true
  | String a needle', String b s' => bool_decide (a = b) && starts_with needle' s'
  | String _ _, EmptyString => false
  end.

Fixpoint contains (s needle : string) : bool :=
  starts_with needle s ||
  match s with
  | EmptyString => false
  | String _ s' => contains s' needle
  end.

(** ** Record schemas *)

(** Modelled from the spec: the [Annonce] model of [models.py], which is not
    part of the sources read here.  A listing carries the [actif] flag
    (boolean-as-integer, 1 = published, 0 = pending), the free-text
    [statut] tag, the two timestamps, and an open bag of descriptive
    fields keyed by field name. *)
Record Columns := {
  actif : bool;
  statut : string;
  created_at : option datetime;
  updated_at : option datetime;
  fields : gmap string scalar
}.

(** A model instance: the store-assigned primary key with the column
    values.  [Annonce_Pydantic] serialises exactly this content. *)
Record Annonce := { id : Z; cols : Columns }.
Coercion cols : Annonce >-> Columns.

(** Modelled from the spec: [AnnonceIn_Pydantic], the partial input record.
    It excludes the server-assigned [id] and timestamps; [None] is a field
    the client left unset, and the bag holds exactly the descriptive fields
    the client provided. *)
Record AnnonceIn := {
  in_actif : option bool;
  in_statut : option string;
  in_fields : gmap string scalar
}.

(** The keyword arguments a handler splats into [create] and [update]. *)
Record kwargs := {
  kw_actif : option bool;
  kw_statut : option string;
  kw_updated_at : option datetime;
  kw_fields : gmap string scalar
}.

(** [annonce.model_dump(exclude_unset=True)]: only the provided fields. *)
Definition model_dump (a : AnnonceIn) : kwargs :=
  {| kw_actif := in_actif a; kw_statut := in_statut a;
     kw_updated_at := None; kw_fields := in_fields a |}.

(** Modelled from the spec: the [Device] model of [models.py]: a
    client-supplied [device_id] (no uniqueness) plus descriptive
    installation metadata, under a store-assigned row identifier. *)
Record DeviceColumns := {
  device_id : scalar;
  dev_fields : gmap string scalar
}.

Record Device := { dev_pk : Z; dev_cols : DeviceColumns }.
Coercion dev_cols : Device >-> DeviceColumns.

(** Modelled from the spec: [DeviceIn_Pydantic], the partial Device input. *)
Record DeviceIn := {
  in_device_id : option scalar;
  in_dev_fields : gmap string scalar
}.

(** The response model of the message-only endpoints. *)
Record Status := { message : string }.

(** ** The store *)

(** Two tables keyed by primary key, each with the high-water mark of the
    identifiers it has handed out. *)
Record Store := {
  annonces : gmap Z Columns;
  annonce_seq : Z;
  devices : gmap Z DeviceColumns;
  device_seq : Z
}.

Definition empty_store : Store :=
  {| annonces := ∅; annonce_seq := 0; devices := ∅; device_seq := 0 |}.

(** The store with its listing table replaced. *)
Definition with_annonces (s : Store) (t : gmap Z Columns) : Store :=
  {| annonces := t; annonce_seq := annonce_seq s;
     devices := devices s; device_seq := device_seq s |}.

(** The largest key present in a table (0 when empty). *)
Definition max_key {V} (t : gmap Z V) : Z :=
  foldr Z.max 0 (map_to_list t).*1.

(** The identifier the store assigns to a new row: one past every
    identifier handed out before and every key present. *)
Definition next_id {V} (seq : Z) (t : gmap Z V) : Z :=
  1 + Z.max seq (max_key t).

(** ** Exceptions and the handler monad *)

(** What the handlers' own code ends in when it does not return: the ORM's
    [DoesNotExist] of a fetch that matches no row, and the [HTTPException]
    a handler raises itself.  Rejections by input validation happen before
    a handler is called, and failures of the store driver inside it; neither
    is caught or raised by [main.py], and neither is modelled: the
    statements below are about calls with a validated input on a store that
    answers. *)
Inductive exn :=
  | DoesNotExist
  | HTTPException (status_code : Z) (detail : string).

Inductive result (A : Type) :=
  | Ok (a : A)
  | Raise (e : exn).
Arguments Ok {A} a.
Arguments Raise {A} e.

(** The NotFound outcome: the explicit 404 of a handler, or the ORM's
    [DoesNotExist] that the framework maps to a 404 response. *)
Definition not_found {A} (r : result A) : Prop :=
  match r with
  | Raise DoesNotExist => True
  | Raise (HTTPException code _) => code = 404
  | Ok _ => False
  end.

Definition is_ok {A} (r : result A) : Prop :=
  match r with Ok _ => True | Raise _ => False end.

Definition M (A : Type) : Type := Store → result A * Store.

Definition ret {A} (a : A) : M A := λ s, (Ok a, s).
Definition raise {A} (e : exn) : M A := λ s, (Raise e, s).
Definition bind {A B} (m : M A) (k : A → M B) : M B :=
  λ s, match m s with
       | (Ok a, s') => k a s'
       | (Raise e, s') => (Raise e, s')
       end.

(** [let* x := m in k] is [x = await m; k]; a failing [m] ends the
    handler with its exception and the store as [m] left it. *)
Notation "'let*' x ':=' m 'in' k" := (bind m (λ x, k))
  (at level 20, x name, m at level 100, k at level 200,
   format "'[v' 'let*'  x  ':='  m  'in' '/' k ']'").

(** ** The ORM operations the handlers call *)

Section Schema.

(** Modelled from the spec: the schema defaults declared in [models.py],
    which unset fields fall through to on creation. *)
Variable default_actif : bool.
Variable default_statut : string.
Variable default_fields : gmap string scalar.
Variable default_device_id : scalar.
Variable dev_fields_default : gmap string scalar.

(** Modelled from the spec: the row the [Annonce] model of [models.py]
    gives a fresh instance: the provided fields, the schema defaults for the
    unset ones, and both timestamps assigned from the clock. *)
Definition new_columns (kw : kwargs) (now : datetime) : Columns :=
  {| actif := default default_actif (kw_actif kw);
     statut := default default_statut (kw_statut kw);
     created_at := Some now;
     updated_at := Some (default now (kw_updated_at kw));
     fields := kw_fields kw ∪ default_fields |}.

(** [Annonce.create(kw)]: insert under a fresh identifier, return the
    instance. *)
Definition Annonce_create (kw : kwargs) (now : datetime) : M Annonce :=
  λ s,
    let i := next_id (annonce_seq s) (annonces s) in
    let c := new_columns kw now in
    (Ok {| id := i; cols := c |},
     {| annonces := <[i := c]> (annonces s); annonce_seq := i;
        devices := devices s; device_seq := device_seq s |}).

(** [Annonce.get(id=i)]: the single matching instance, or [DoesNotExist]. *)
Definition Annonce_get (i : Z) : M Annonce :=
  λ s,
    match annonces s !! i with
    | Some c => (Ok {| id := i; cols := c |}, s)
    | None => (Raise DoesNotExist, s)
    end.

(** The instances of a table, in store order. *)
Definition instances (t : gmap Z Columns) : list Annonce :=
  (λ kc, {| id := kc.1; cols := kc.2 |}) <$> map_to_list t.

(** [Annonce.all()]. *)
Definition Annonce_all : M (list Annonce) :=
  λ s, (Ok (instances (annonces s)), s).

(** [Annonce.filter(actif=a, statut=st).all()]: exact match on both
    columns. *)
Definition Annonce_filter (a : Z) (st : string) : M (list Annonce) :=
  λ s,
    (Ok (filter (λ x : Annonce, int_of_flag (actif x) = a ∧ statut x = st)
           (instances (annonces s))), s).

(** What [update(kw)] does to one row: every provided column is
    overwritten, every other column kept. *)
Definition apply_kwargs (kw : kwargs) (c : Columns) : Columns :=
  {| actif := default (actif c) (kw_actif kw);
     statut := default (statut c) (kw_statut kw);
     created_at := created_at c;
     updated_at := match kw_updated_at kw with
                   | Some t => Some t
                   | None => updated_at c
                   end;
     fields := kw_fields kw ∪ fields c |}.

(** [Annonce.filter(id=i).update(kw)]: rewrites the matching rows and
    returns how many there were; zero matches is not an error. *)
Definition Annonce_filter_update (i : Z) (kw : kwargs) : M nat :=
  λ s,
    match annonces s !! i with
    | Some c =>
        (Ok 1%nat, with_annonces s (<[i := apply_kwargs kw c]> (annonces s)))
    | None => (Ok 0%nat, s)
    end.

(** [Annonce.filter(id=i).delete()]: removes the matching rows and
    returns how many there were. *)
Definition Annonce_filter_delete (i : Z) : M nat :=
  λ s,
    match annonces s !! i with
    | Some _ =>
        (Ok 1%nat, with_annonces s (delete i (annonces s)))
    | None => (Ok 0%nat, s)
    end.

(** [device.model_dump(exclude_unset=True)] followed by [Device.create]. *)
Definition Device_create (d : DeviceIn) : M Device :=
  λ s,
    let i := next_id (device_seq s) (devices s) in
    let c := {| device_id := default default_device_id (in_device_id d);
                dev_fields := in_dev_fields d ∪ dev_fields_default |} in
    (Ok {| dev_pk := i; dev_cols := c |},
     {| annonces := annonces s; annonce_seq := annonce_seq s;
        devices := <[i := c]> (devices s); device_seq := i |}).

(** ** The request handlers of main.py *)

(** GET /annonces *)
Definition get_annonces : M (list Annonce) := Annonce_all.

(** GET /annonces/public *)
Definition get_actives_annonces : M (list Annonce) := Annonce_filter 1 "fall".

(** GET /annonces/private *)
Definition get_inactive_annonce : M (list Annonce) := Annonce_filter 0 "fall".

(** POST /annonce/ *)
Definition create_annonce (annonce : AnnonceIn) (now : datetime) : M Annonce :=
  let* obj := Annonce_create (model_dump annonce) now in
  ret obj.

(** GET /annonce/{id} *)
Definition get_annonce (annonce_id : Z) : M Annonce := Annonce_get annonce_id.

(** PUT /annonce/{id} *)
Definition update_annonce (annonce_id : Z) (annonce : AnnonceIn) : M Annonce :=
  let* updated := Annonce_filter_update annonce_id (model_dump annonce) in
  Annonce_get annonce_id.

(** GET /annonce/publier/{id} *)
Definition publish_annonce (annonce_id : Z) (now : datetime) : M Status :=
  let* updated :=
    Annonce_filter_update annonce_id
      {| kw_actif := Some (flag 1); kw_statut := None;
         kw_updated_at := Some now; kw_fields := ∅ |} in
  ret {| message := "L'annonce à bien été publiée" |}.

(** GET /annonce/done/{id} *)
Definition acchieve_annonce (annonce_id : Z) (now : datetime) : M Status :=
  let* updated :=
    Annonce_filter_update annonce_id
      {| kw_actif := Some (flag 0); kw_statut := Some "pupa";
         kw_updated_at := Some now; kw_fields := ∅ |} in
  ret {| message := "Felicitation, objet bien rendu au proprietaire !" |}.

(** DELETE /annonce/{id} *)
Definition delete_annonce (annonce_id : Z) : M Status :=
  let* deleted_count := Annonce_filter_delete annonce_id in
  if bool_decide (deleted_count = 0%nat) then
    raise (HTTPException 404
             ("L'annonce " +:+ pretty annonce_id +:+ " n'a pas été trouvée"))
  else
    ret {| message := "L'annonce " +:+ pretty annonce_id +:+ " a été supprimée" |}.

(** POST /installation/ *)
Definition get_device_info (device : DeviceIn) : M Status :=
  let* obj := Device_create device in
  ret {| message :=
            "Nous sommes heureux de vous compter parmis nous, utilisateur "
            +:+ str (device_id obj) |}.

(** ** The route table *)

(** One constructor per decorated handler of [main.py], with the typed
    arguments the framework passes to it. *)
Inductive request :=
  | GET_annonces
  | GET_annonces_public
  | GET_annonces_private
  | POST_annonce (annonce : AnnonceIn)
  | GET_annonce (annonce_id : Z)
  | PUT_annonce (annonce_id : Z) (annonce : AnnonceIn)
  | GET_annonce_publier (annonce_id : Z)
  | GET_annonce_done (annonce_id : Z)
  | DELETE_annonce (annonce_id : Z)
  | POST_installation (device : DeviceIn).

(** The three response models: a list of listings, one listing, or a
    [Status]. *)
Inductive response :=
  | Listings (l : list Annonce)
  | Listing (a : Annonce)
  | Message (st : Status).

(** Serving one request: the matching handler runs on the store. *)
Definition serve (r : request) (now : datetime) : M response :=
  match r with
  | GET_annonces => let* l := get_annonces in ret (Listings l)
  | GET_annonces_public => let* l := get_actives_annonces in ret (Listings l)
  | GET_annonces_private => let* l := get_inactive_annonce in ret (Listings l)
  | POST_annonce annonce =>
      let* a := create_annonce annonce now in ret (Listing a)
  | GET_annonce annonce_id =>
      let* a := get_annonce annonce_id in ret (Listing a)
  | PUT_annonce annonce_id annonce =>
      let* a := update_annonce annonce_id annonce in ret (Listing a)
  | GET_annonce_publier annonce_id =>
      let* st := publish_annonce annonce_id now in ret (Message st)
  | GET_annonce_done annonce_id =>
      let* st := acchieve_annonce annonce_id now in ret (Message st)
  | DELETE_annonce annonce_id =>
      let* st := delete_annonce annonce_id in ret (Message st)
  | POST_installation device =>
      let* st := get_device_info device in ret (Message st)
  end.

(** Serving a sequence of requests, each at its own instant; a request that
    ends in an error response does not stop the service. *)
Fixpoint serve_all (rs : list (request * datetime)) (s : Store) : Store :=
  match rs with
  | [] => s
  | (r, now) :: rs' => serve_all rs' (serve r now s).2
  end.

End Schema.

(** ** Inputs and stores used in the examples below *)

(** A request body that provides no field at all. *)
Definition no_fields : AnnonceIn :=
  {| in_actif := None; in_statut := None; in_fields := ∅ |}.

(** The body [{title: "Lost wallet"}]. *)
Definition lost_wallet : AnnonceIn :=
  {| in_actif := None; in_statut := None;
     in_fields := {[ "title" := SStr "Lost wallet" ]} |}.

(** A pending listing as it sits in the table. *)
Definition pending_wallet : Columns :=
  {| actif := false; statut := "fall"; created_at := Some 5;
     updated_at := Some 5; fields := {[ "title" := SStr "Lost wallet" ]} |}.

(** A store holding that one listing under id 1. *)
Definition one_listing : Store :=
  {| annonces := {[ 1 := pending_wallet ]}; annonce_seq := 1;
     devices := ∅; device_seq := 0 |}.

(** A Device body with the client-chosen [device_id] "abc". *)
Definition abc_device : DeviceIn :=
  {| in_device_id := Some (SStr "abc"); in_dev_fields := ∅ |}.

(** A store whose listings differ from a public one in a single respect:
    id 1 is public, id 2 is pending, id 3 is resolved, and ids 4 and 5
    carry tags that merely resemble "fall". *)
Definition mixed_listings : Store :=
  {| annonces :=
       {[ 1 := {| actif := true; statut := "fall"; created_at := Some 1;
                  updated_at := Some 1; fields := ∅ |};
          2 := {| actif := false; statut := "fall"; created_at := Some 2;
                  updated_at := Some 2; fields := ∅ |};
          3 := {| actif := false; statut := "pupa"; created_at := Some 3;
                  updated_at := Some 3; fields := ∅ |};
          4 := {| actif := true; statut := "fallen"; created_at := Some 4;
                  updated_at := Some 4; fields := ∅ |};
          5 := {| actif := true; statut := "Fall"; created_at := Some 5;
                  updated_at := Some 5; fields := ∅ |} ]};
     annonce_seq := 5; devices := ∅; device_seq := 0 |}.

(** The ids of the listings a query answered with. *)
Definition result_ids (r : result (list Annonce)) : list Z :=
  match r with
  | Ok l => id <$> l
  | Raise _ => []
  end.

(** How many requests of a sequence are installations. *)
Fixpoint installations (rs : list (request * datetime)) : nat :=
  match rs with
  | [] => 0%nat
  | (POST_installation _, _) :: rs' => S (installations rs')
  | _ :: rs' => installations rs'
  end.

(** Whether a request is an Update or a Delete of the listing [i]. *)
Definition rewrites (i : Z) (r : request) : bool :=
  match r with
  | PUT_annonce j _ => bool_decide (j = i)
  | DELETE_annonce j => bool_decide (j = i)
  | _ => false
  end.

(** The body that reopens a listing: [{actif: true, statut: "fall"}] plus
    any descriptive fields. *)
Definition reopen (f : gmap string scalar) : AnnonceIn :=
  {| in_actif := Some true; in_statut := Some "fall"; in_fields := f |}.

(** A resolved listing as it sits in the table. *)
Definition resolved_wallet : Columns :=
  {| actif := false; statut := "pupa"; created_at := Some 5;
     updated_at := Some 7; fields := {[ "title" := SStr "Lost wallet" ]} |}.

(** A store holding that one resolved listing under id 1. *)
Definition one_resolved : Store :=
  {| annonces := {[ 1 := resolved_wallet ]}; annonce_seq := 1;
     devices := ∅; device_seq := 0 |}.

(** A sequence of requests around listing 1 that never updates or
    deletes it. *)
Definition busy_day : list (request * datetime) :=
  [ (GET_annonce_publier 1, 8);
    (POST_annonce lost_wallet, 9);
    (PUT_annonce 2 (reopen ∅), 10);
    (GET_annonce_done 2, 11);
    (DELETE_annonce 3, 12);
    (POST_installation abc_device, 13);
    (GET_annonces_public, 14) ].

(** Two rows agree on every column except possibly [updated_at]. *)
Definition same_but_updated_at (c c' : Columns) : Prop :=
  actif c' = actif c ∧ statut c' = statut c ∧
  created_at c' = created_at c ∧ fields c' = fields c.

(** Two stores agree except possibly on the [updated_at] of their
    listings: same ids, same other columns, same everything else. *)
Definition stores_same_but_updated_at (s1 s2 : Store) : Prop :=
  (∀ j : Z,
     match annonces s1 !! j with
     | Some c1 => ∃ c2, annonces s2 !! j = Some c2 ∧ same_but_updated_at c1 c2
     | None => annonces s2 !! j = None
     end) ∧
  annonce_seq s2 = annonce_seq s1 ∧
  devices s2 = devices s1 ∧
  device_seq s2 = device_seq s1.

(** * Properties *)

(** ** The store: identifiers *)

Lemma max_key_ge {V} (t : gmap Z V) (k : Z) (v : V) :
  t !! k = Some v → k ≤ max_key t.
Proof.
  intros Hk. unfold max_key.
  assert (Hin : k ∈ (map_to_list t).*1).
  { apply list_elem_of_fmap. exists (k, v). split; [done|].
    by apply elem_of_map_to_list. }
  clear Hk. induction Hin; simpl; lia.
Qed.

Lemma next_id_fresh {V} (seq : Z) (t : gmap Z V) :
  t !! next_id seq t = None.
Proof.
  destruct (t !! next_id seq t) as [v|] eqn:Hk; [|done].
  apply max_key_ge in Hk. unfold next_id in Hk. lia.
Qed.

Lemma next_id_above_seq {V} (seq : Z) (t : gmap Z V) : seq < next_id seq t.
Proof. unfold next_id. lia. Qed.

(** ** Strings *)

Lemma starts_with_app (needle rest : string) :
  starts_with needle (needle +:+ rest) = true.
Proof.
  induction needle as [|a needle IH]; simpl; [done|].
  rewrite bool_decide_eq_true_2 by done. exact IH.
Qed.

Lemma contains_app (pre needle post : string) :
  contains (pre +:+ needle +:+ post) needle = true.
Proof.
  induction pre as [|a pre IH]; simpl.
  - destruct (needle +:+ post) eqn:E; simpl.
    + destruct needle; [done | discriminate].
    + rewrite <- E, starts_with_app. done.
  - rewrite IH. apply orb_true_r.
Qed.

Lemma contains_suffix (pre needle : string) :
  contains (pre +:+ needle) needle = true.
Proof.
  assert (Hnil : ∀ t : string, t +:+ EmptyString = t).
  { induction t as [|a t IH]; [done|].
    change (String a (t +:+ EmptyString) = String a t). by rewrite IH. }
  pose proof (contains_app pre needle EmptyString) as H.
  by rewrite Hnil in H.
Qed.

(** ** The ORM operations *)

Lemma apply_kwargs_nothing (c : Columns) :
  apply_kwargs (model_dump no_fields) c = c.
Proof.
  destruct c as [a st ca ua f]. unfold apply_kwargs; simpl.
  by rewrite (left_id_L ∅ (∪)).
Qed.

Lemma lookup_fields_union (provided old : gmap string scalar) (k : string) :
  (provided ∪ old) !! k =
  match provided !! k with Some v => Some v | None => old !! k end.
Proof.
  rewrite lookup_union. destruct (provided !! k), (old !! k); done.
Qed.

Lemma with_annonces_id (s : Store) : with_annonces s (annonces s) = s.
Proof. by destruct s. Qed.

Lemma filter_update_other (i j : Z) (kw : kwargs) (s : Store) :
  j ≠ i →
  annonces (Annonce_filter_update i kw s).2 !! j = annonces s !! j.
Proof.
  intros Hj. unfold Annonce_filter_update.
  destruct (annonces s !! i); simpl; [|done].
  by rewrite lookup_insert_ne.
Qed.

Lemma filter_update_frame (i : Z) (kw : kwargs) (s : Store) :
  annonce_seq (Annonce_filter_update i kw s).2 = annonce_seq s ∧
  devices (Annonce_filter_update i kw s).2 = devices s ∧
  device_seq (Annonce_filter_update i kw s).2 = device_seq s.
Proof. unfold Annonce_filter_update. by destruct (annonces s !! i). Qed.

Lemma filter_update_missing (i : Z) (kw : kwargs) (s : Store) :
  annonces s !! i = None → Annonce_filter_update i kw s = (Ok 0%nat, s).
Proof. intros H. unfold Annonce_filter_update. by rewrite H. Qed.

Lemma filter_update_present (i : Z) (kw : kwargs) (s : Store) (c : Columns) :
  annonces s !! i = Some c →
  Annonce_filter_update i kw s =
    (Ok 1%nat, with_annonces s (<[i := apply_kwargs kw c]> (annonces s))).
Proof. intros H. unfold Annonce_filter_update. by rewrite H. Qed.

(** ** Update *)

(** C1. Update applies exactly the provided fields to the row matching the
    id: the update step never raises and does not look the id up first; on a
    missing id it changes nothing and the handler's NotFound is the one of
    the fetch that follows; on a present id the returned record is the
    stored row with each provided field overwritten and every other column
    kept; all other rows are untouched.  With a body that provides no field
    the handler succeeds on a present id and the store is unchanged. *)
Theorem update_annonce_applies_provided_fields
    (annonce_id : Z) (annonce : AnnonceIn) (s : Store) :
  is_ok (Annonce_filter_update annonce_id (model_dump annonce) s).1 ∧
  update_annonce annonce_id annonce s =
    Annonce_get annonce_id
      (Annonce_filter_update annonce_id (model_dump annonce) s).2 ∧
  (not_found (update_annonce annonce_id annonce s).1 ↔
   annonces s !! annonce_id = None) ∧
  (∀ j, j ≠ annonce_id →
     annonces (update_annonce annonce_id annonce s).2 !! j = annonces s !! j) ∧
  match annonces s !! annonce_id with
  | None =>
      Annonce_filter_update annonce_id (model_dump annonce) s = (Ok 0%nat, s) ∧
      update_annonce annonce_id annonce s = (Raise DoesNotExist, s)
  | Some c =>
      (∃ c' : Columns,
         (update_annonce annonce_id annonce s).1 =
           Ok {| id := annonce_id; cols := c' |} ∧
         annonces (update_annonce annonce_id annonce s).2 !! annonce_id = Some c' ∧
         actif c' = default (actif c) (in_actif annonce) ∧
         statut c' = default (statut c) (in_statut annonce) ∧
         created_at c' = created_at c ∧
         updated_at c' = updated_at c ∧
         ∀ k, fields c' !! k =
              match in_fields annonce !! k with
              | Some v => Some v
              | None => fields c !! k
              end) ∧
      update_annonce annonce_id no_fields s =
        (Ok {| id := annonce_id; cols := c |}, s)
  end.
Proof.
  assert (Hstep : update_annonce annonce_id annonce s =
    Annonce_get annonce_id
      (Annonce_filter_update annonce_id (model_dump annonce) s).2).
  { unfold update_annonce, bind, Annonce_filter_update.
    by destruct (annonces s !! annonce_id). }
  split_and!.
  - unfold Annonce_filter_update. by destruct (annonces s !! annonce_id).
  - exact Hstep.
  - rewrite Hstep. unfold Annonce_get, Annonce_filter_update.
    destruct (annonces s !! annonce_id) as [c|] eqn:Hc; simpl.
    + rewrite lookup_insert_eq. simpl. split; [done | discriminate].
    + rewrite Hc. done.
  - intros j Hj. rewrite Hstep. unfold Annonce_get.
    destruct (annonces _ !! annonce_id); simpl; by apply filter_update_other.
  - destruct (annonces s !! annonce_id) as [c|] eqn:Hc.
    + split.
      * exists (apply_kwargs (model_dump annonce) c).
        rewrite Hstep, (filter_update_present _ _ _ _ Hc).
        unfold Annonce_get; simpl. rewrite lookup_insert_eq; simpl.
        rewrite lookup_insert_eq.
        split_and!; try done.
        intros k. apply lookup_fields_union.
      * unfold update_annonce, bind.
        rewrite (filter_update_present _ _ _ _ Hc), apply_kwargs_nothing.
        rewrite insert_id by done. rewrite with_annonces_id.
        unfold Annonce_get. by rewrite Hc.
    + split; [by apply filter_update_missing|].
      rewrite Hstep, (filter_update_missing _ _ _ Hc).
      unfold Annonce_get; simpl. by rewrite Hc.
Qed.

(** ** Delete *)

Lemma filter_delete_count (i : Z) (s : Store) :
  (Annonce_filter_delete i s).1 = Ok 0%nat ↔ annonces s !! i = None.
Proof.
  unfold Annonce_filter_delete.
  destruct (annonces s !! i); simpl; split; congruence.
Qed.

(** C2. Delete raises the explicit 404 exactly when the delete step
    reports zero affected rows, which is exactly when no row has the id;
    the store is then unchanged.  When a row has the id, it is removed and
    no other row is, a following Get of the id ends in NotFound, and the
    confirmation message contains the id.  Publish and Mark-resolved, which
    also go through an affected-row count, never raise. *)
Theorem delete_annonce_not_found_iff_no_row (annonce_id : Z) (s : Store) :
  (not_found (delete_annonce annonce_id s).1 ↔
   (Annonce_filter_delete annonce_id s).1 = Ok 0%nat) ∧
  ((Annonce_filter_delete annonce_id s).1 = Ok 0%nat ↔
   annonces s !! annonce_id = None) ∧
  match annonces s !! annonce_id with
  | None =>
      delete_annonce annonce_id s =
        (Raise (HTTPException 404
                  ("L'annonce " +:+ pretty annonce_id +:+ " n'a pas été trouvée")),
         s)
  | Some _ =>
      ∃ (st : Status) (s' : Store),
        delete_annonce annonce_id s = (Ok st, s') ∧
        message st = "L'annonce " +:+ pretty annonce_id +:+ " a été supprimée" ∧
        contains (message st) (pretty annonce_id) = true ∧
        annonces s' !! annonce_id = None ∧
        (∀ j, j ≠ annonce_id → annonces s' !! j = annonces s !! j) ∧
        not_found (get_annonce annonce_id s').1
  end ∧
  (∀ now, is_ok (publish_annonce annonce_id now s).1 ∧
          is_ok (acchieve_annonce annonce_id now s).1).
Proof.
  split_and!.
  - unfold delete_annonce, bind, Annonce_filter_delete.
    destruct (annonces s !! annonce_id); simpl; split; done.
  - apply filter_delete_count.
  - unfold delete_annonce, bind, Annonce_filter_delete.
    destruct (annonces s !! annonce_id) as [c|]; simpl; [|done].
    eexists _, _. split; [reflexivity|]. split_and!.
    + done.
    + exact (contains_app "L'annonce " (pretty annonce_id) " a été supprimée").
    + apply lookup_delete_eq.
    + intros j Hj. by apply lookup_delete_ne.
    + unfold get_annonce, Annonce_get; simpl. by rewrite lookup_delete_eq.
  - intros now. unfold publish_annonce, acchieve_annonce, bind,
      Annonce_filter_update.
    by destruct (annonces s !! annonce_id).
Qed.

(** ** Publish and Mark resolved *)

Lemma update_then_ret {A} (i : Z) (kw : kwargs) (a : A) (s : Store) :
  (let* updated := Annonce_filter_update i kw in ret a) s =
  (Ok a, (Annonce_filter_update i kw s).2).
Proof.
  unfold bind, Annonce_filter_update. by destruct (annonces s !! i).
Qed.

Lemma filter_update_row (i : Z) (kw : kwargs) (s : Store) :
  annonces (Annonce_filter_update i kw s).2 !! i =
  apply_kwargs kw <$> annonces s !! i.
Proof.
  unfold Annonce_filter_update.
  destruct (annonces s !! i) as [c|] eqn:Hc; simpl.
  - by rewrite lookup_insert_eq.
  - by rewrite Hc.
Qed.

(** A status-only update (no descriptive field among the keyword
    arguments) leaves every row as it was up to the columns it names. *)
Lemma filter_update_same_but_updated_at (i : Z) (kw : kwargs) (s : Store) :
  kw_fields kw = ∅ →
  (∀ c, annonces s !! i = Some c →
        default (actif c) (kw_actif kw) = actif c ∧
        default (statut c) (kw_statut kw) = statut c) →
  stores_same_but_updated_at s (Annonce_filter_update i kw s).2.
Proof.
  intros Hf Hsame. split; [|apply filter_update_frame].
  intros j. destruct (decide (j = i)) as [->|Hj].
  - rewrite filter_update_row.
    destruct (annonces s !! i) as [c|] eqn:Hc; simpl; [|done].
    eexists; split; [reflexivity|].
    destruct (Hsame c eq_refl) as [Ha Hs].
    unfold same_but_updated_at, apply_kwargs; simpl.
    rewrite Ha, Hs, Hf. by rewrite (left_id_L ∅ (∪)).
  - rewrite (filter_update_other _ _ _ _ Hj).
    destruct (annonces s !! j) as [c|]; [|done].
    by exists c.
Qed.

Lemma publish_annonce_eq (annonce_id : Z) (now : datetime) (s : Store) :
  publish_annonce annonce_id now s =
  (Ok {| message := "L'annonce à bien été publiée" |},
   (Annonce_filter_update annonce_id
      {| kw_actif := Some (flag 1); kw_statut := None;
         kw_updated_at := Some now; kw_fields := ∅ |} s).2).
Proof. unfold publish_annonce. apply update_then_ret. Qed.

Lemma acchieve_annonce_eq (annonce_id : Z) (now : datetime) (s : Store) :
  acchieve_annonce annonce_id now s =
  (Ok {| message := "Felicitation, objet bien rendu au proprietaire !" |},
   (Annonce_filter_update annonce_id
      {| kw_actif := Some (flag 0); kw_statut := Some "pupa";
         kw_updated_at := Some now; kw_fields := ∅ |} s).2).
Proof. unfold acchieve_annonce. apply update_then_ret. Qed.

(** Publishing a store that was just published changes at most
    [updated_at]. *)
Lemma publish_again (annonce_id : Z) (now now' : datetime) (s : Store) :
  stores_same_but_updated_at
    (publish_annonce annonce_id now s).2
    (publish_annonce annonce_id now' (publish_annonce annonce_id now s).2).2.
Proof.
  rewrite (publish_annonce_eq annonce_id now'). cbn [snd].
  apply filter_update_same_but_updated_at; [done|].
  intros c. rewrite publish_annonce_eq; cbn [snd]. rewrite filter_update_row.
  destruct (annonces s !! annonce_id); simpl; [|done].
  by intros [= <-].
Qed.

Lemma acchieve_again (annonce_id : Z) (now now' : datetime) (s : Store) :
  stores_same_but_updated_at
    (acchieve_annonce annonce_id now s).2
    (acchieve_annonce annonce_id now' (acchieve_annonce annonce_id now s).2).2.
Proof.
  rewrite (acchieve_annonce_eq annonce_id now'). cbn [snd].
  apply filter_update_same_but_updated_at; [done|].
  intros c. rewrite acchieve_annonce_eq; cbn [snd]. rewrite filter_update_row.
  destruct (annonces s !! annonce_id); simpl; [|done].
  by intros [= <-].
Qed.

(** C3. Publish answers with its fixed confirmation message, a [Status]
    that carries no record; whatever the matching row held, afterwards its
    [actif] is 1 and its [updated_at] is the current instant, its other
    columns are as before, and no other row has changed. *)
Theorem publish_annonce_sets_actif
    (annonce_id : Z) (now : datetime) (s : Store) :
  (publish_annonce annonce_id now s).1 =
    Ok {| message := "L'annonce à bien été publiée" |} ∧
  (∀ j, j ≠ annonce_id →
     annonces (publish_annonce annonce_id now s).2 !! j = annonces s !! j) ∧
  match annonces s !! annonce_id with
  | Some c =>
      ∃ c' : Columns,
        annonces (publish_annonce annonce_id now s).2 !! annonce_id = Some c' ∧
        int_of_flag (actif c') = 1 ∧
        updated_at c' = Some now ∧
        statut c' = statut c ∧
        created_at c' = created_at c ∧
        fields c' = fields c
  | None =>
      annonces (publish_annonce annonce_id now s).2 !! annonce_id = None
  end.
Proof.
  rewrite publish_annonce_eq. cbn [fst snd]. split_and!.
  - done.
  - intros j Hj. by apply filter_update_other.
  - rewrite filter_update_row.
    destruct (annonces s !! annonce_id) as [c|]; simpl; [|done].
    eexists; split; [reflexivity|]. simpl.
    by rewrite (left_id_L ∅ (∪)).
Qed.

(** C4. Mark-resolved answers with its fixed confirmation message, a
    [Status] that carries no record; afterwards a fetch of the id shows
    [statut] "pupa", [actif] 0 and [updated_at] the current instant, the
    other columns as before, and no other row has changed.  Calling it again
    gives the same answer and changes at most [updated_at]. *)
Theorem acchieve_annonce_sets_pupa
    (annonce_id : Z) (now : datetime) (s : Store) :
  (acchieve_annonce annonce_id now s).1 =
    Ok {| message := "Felicitation, objet bien rendu au proprietaire !" |} ∧
  (∀ j, j ≠ annonce_id →
     annonces (acchieve_annonce annonce_id now s).2 !! j = annonces s !! j) ∧
  match annonces s !! annonce_id with
  | Some c =>
      ∃ a : Annonce,
        get_annonce annonce_id (acchieve_annonce annonce_id now s).2 =
          (Ok a, (acchieve_annonce annonce_id now s).2) ∧
        id a = annonce_id ∧
        statut a = "pupa" ∧
        int_of_flag (actif a) = 0 ∧
        updated_at a = Some now ∧
        created_at a = created_at c ∧
        fields a = fields c
  | None =>
      annonces (acchieve_annonce annonce_id now s).2 !! annonce_id = None
  end ∧
  (∀ now' : datetime,
     (acchieve_annonce annonce_id now'
        (acchieve_annonce annonce_id now s).2).1 =
       (acchieve_annonce annonce_id now s).1 ∧
     stores_same_but_updated_at
       (acchieve_annonce annonce_id now s).2
       (acchieve_annonce annonce_id now'
          (acchieve_annonce annonce_id now s).2).2).
Proof.
  split_and!.
  - by rewrite acchieve_annonce_eq.
  - intros j Hj. rewrite acchieve_annonce_eq. by apply filter_update_other.
  - unfold get_annonce, Annonce_get.
    rewrite acchieve_annonce_eq. cbn [snd]. rewrite filter_update_row.
    destruct (annonces s !! annonce_id) as [c|]; simpl; [|done].
    eexists; split; [reflexivity|]. simpl.
    by rewrite (left_id_L ∅ (∪)).
  - intros now'. split; [by rewrite !acchieve_annonce_eq | apply acchieve_again].
Qed.

(** C5. Publish is idempotent: on an existing listing, a fetch after
    Publish shows [actif] 1, and a second Publish gives the same answer and
    changes no column of any row other than [updated_at]. *)
Theorem publish_annonce_idempotent
    (annonce_id : Z) (now now' : datetime) (s : Store) (c : Columns) :
  annonces s !! annonce_id = Some c →
  (∃ a : Annonce,
     get_annonce annonce_id (publish_annonce annonce_id now s).2 =
       (Ok a, (publish_annonce annonce_id now s).2) ∧
     id a = annonce_id ∧
     int_of_flag (actif a) = 1) ∧
  (publish_annonce annonce_id now' (publish_annonce annonce_id now s).2).1 =
    (publish_annonce annonce_id now s).1 ∧
  stores_same_but_updated_at
    (publish_annonce annonce_id now s).2
    (publish_annonce annonce_id now' (publish_annonce annonce_id now s).2).2.
Proof.
  intros Hc. split_and!.
  - unfold get_annonce, Annonce_get.
    rewrite publish_annonce_eq. cbn [snd]. rewrite filter_update_row, Hc.
    simpl. by eexists.
  - by rewrite !publish_annonce_eq.
  - apply publish_again.
Qed.

Lemma publish_annonce_idempotent_witness :
  (∃ a : Annonce,
     get_annonce 1 (publish_annonce 1 9 one_listing).2 =
       (Ok a, (publish_annonce 1 9 one_listing).2) ∧
     id a = 1 ∧
     int_of_flag (actif a) = 1) ∧
  (publish_annonce 1 12 (publish_annonce 1 9 one_listing).2).1 =
    (publish_annonce 1 9 one_listing).1 ∧
  stores_same_but_updated_at
    (publish_annonce 1 9 one_listing).2
    (publish_annonce 1 12 (publish_annonce 1 9 one_listing).2).2.
Proof.
  apply (publish_annonce_idempotent 1 9 12 one_listing pending_wallet).
  reflexivity.
Defined.

(** C10. On an id that no row has, Publish and Mark-resolved still answer
    with their fixed success message, raise nothing, and leave the store
    exactly as it was. *)
Theorem publish_acchieve_missing_id
    (annonce_id : Z) (now : datetime) (s : Store) :
  annonces s !! annonce_id = None →
  publish_annonce annonce_id now s =
    (Ok {| message := "L'annonce à bien été publiée" |}, s) ∧
  acchieve_annonce annonce_id now s =
    (Ok {| message := "Felicitation, objet bien rendu au proprietaire !" |}, s).
Proof.
  intros Hc.
  rewrite publish_annonce_eq, acchieve_annonce_eq.
  by rewrite !filter_update_missing.
Qed.

Lemma publish_acchieve_missing_id_witness :
  publish_annonce 999999 9 one_listing =
    (Ok {| message := "L'annonce à bien été publiée" |}, one_listing) ∧
  acchieve_annonce 999999 9 one_listing =
    (Ok {| message := "Felicitation, objet bien rendu au proprietaire !" |},
     one_listing).
Proof.
  apply (publish_acchieve_missing_id 999999 9 one_listing).
  reflexivity.
Defined.

(** ** The listing queries *)

Lemma elem_of_instances (t : gmap Z Columns) (a : Annonce) :
  a ∈ instances t ↔ t !! id a = Some (cols a).
Proof.
  unfold instances. rewrite list_elem_of_fmap. split.
  - intros [[k c] [-> Hkc]]. simpl. by apply elem_of_map_to_list.
  - intros Ha. exists (id a, cols a). split; [by destruct a|].
    by apply elem_of_map_to_list.
Qed.

Lemma NoDup_instances (t : gmap Z Columns) : NoDup (instances t).
Proof.
  unfold instances. apply NoDup_fmap_2; [|apply NoDup_map_to_list].
  intros [k c] [k' c'] [= -> ->]. done.
Qed.

Lemma Annonce_filter_spec (n : Z) (st : string) (s : Store) :
  ∃ l : list Annonce,
    Annonce_filter n st s = (Ok l, s) ∧
    NoDup l ∧
    ∀ a : Annonce,
      a ∈ l ↔
      annonces s !! id a = Some (cols a) ∧
      int_of_flag (actif a) = n ∧ statut a = st.
Proof.
  eexists. split; [reflexivity|]. split.
  - apply NoDup_filter, NoDup_instances.
  - intros a. rewrite list_elem_of_filter, elem_of_instances. tauto.
Qed.

(** C6. The public query returns exactly the stored listings with
    [actif] = 1 and [statut] = "fall", and the private query exactly those
    with [actif] = 0 and [statut] = "fall": each such listing once, nothing
    else, the tag compared by equality of the whole string; neither query
    changes the store. *)
Theorem public_private_exact_match (s : Store) :
  (∃ l : list Annonce,
     get_actives_annonces s = (Ok l, s) ∧
     NoDup l ∧
     ∀ a : Annonce,
       a ∈ l ↔
       annonces s !! id a = Some (cols a) ∧
       int_of_flag (actif a) = 1 ∧ statut a = "fall") ∧
  (∃ l : list Annonce,
     get_inactive_annonce s = (Ok l, s) ∧
     NoDup l ∧
     ∀ a : Annonce,
       a ∈ l ↔
       annonces s !! id a = Some (cols a) ∧
       int_of_flag (actif a) = 0 ∧ statut a = "fall").
Proof.
  split.
  - apply (Annonce_filter_spec 1 "fall").
  - apply (Annonce_filter_spec 0 "fall").
Qed.

(** On [mixed_listings] the public query returns listing 1 only and the
    private query listing 2 only: "fallen" and "Fall" do not match. *)
Example public_private_on_mixed_listings :
  result_ids (get_actives_annonces mixed_listings).1 = [1] ∧
  result_ids (get_inactive_annonce mixed_listings).1 = [2].
Proof. split; reflexivity. Qed.

(** The two selections of a table by flag 1 and by flag 0 under one tag,
    for rows of any kind whose flag is read as an integer: they never share
    a row, and together they hold exactly the rows with that tag whose flag
    is 1 or 0.  The union is all rows with the tag precisely as far as the
    flag is two-valued. *)
Section FlagPartition.

Context {A : Type} (flag_of : A → Z) (tag_of : A → string).
Variable (l : list A) (st : string).

Lemma select_disjoint (x : A) :
  ¬ (x ∈ filter (λ y, flag_of y = 1 ∧ tag_of y = st) l ∧
     x ∈ filter (λ y, flag_of y = 0 ∧ tag_of y = st) l).
Proof.
  rewrite !list_elem_of_filter. intros [[[H1 _] _] [[H0 _] _]]. lia.
Qed.

Lemma select_union (x : A) :
  x ∈ filter (λ y, flag_of y = 1 ∧ tag_of y = st) l ∨
  x ∈ filter (λ y, flag_of y = 0 ∧ tag_of y = st) l ↔
  x ∈ l ∧ tag_of x = st ∧ (flag_of x = 1 ∨ flag_of x = 0).
Proof. rewrite !list_elem_of_filter. tauto. Qed.

End FlagPartition.

(** The stored flag read as an integer is 1 or 0, nothing else. *)
Lemma int_of_flag_two_valued (b : bool) :
  int_of_flag b = 1 ∨ int_of_flag b = 0.
Proof. destruct b; [by left | by right]. Qed.

(** C7. In every store the public and the private answer are disjoint, as
    listings and already as ids; both hold stored listings tagged "fall"
    only; every stored listing tagged "fall" is in one of them, the public
    one if its [actif] is 1 and the private one if it is 0; so their union
    is exactly the stored listings with that tag, which are also exactly
    the listings with that tag in the List-all answer. *)
Theorem public_private_partition (s : Store) :
  ∃ pub priv every : list Annonce,
    get_actives_annonces s = (Ok pub, s) ∧
    get_inactive_annonce s = (Ok priv, s) ∧
    get_annonces s = (Ok every, s) ∧
    (∀ a : Annonce, ¬ (a ∈ pub ∧ a ∈ priv)) ∧
    (∀ i : Z, ¬ (i ∈ id <$> pub ∧ i ∈ id <$> priv)) ∧
    (∀ a : Annonce, a ∈ every ↔ annonces s !! id a = Some (cols a)) ∧
    (∀ (i : Z) (c : Columns),
       annonces s !! i = Some c → statut c = "fall" →
       ({| id := i; cols := c |} ∈ pub ∧ int_of_flag (actif c) = 1) ∨
       ({| id := i; cols := c |} ∈ priv ∧ int_of_flag (actif c) = 0)) ∧
    (∀ a : Annonce,
       a ∈ pub ∨ a ∈ priv ↔
       annonces s !! id a = Some (cols a) ∧ statut a = "fall") ∧
    (∀ a : Annonce,
       (a ∈ pub ∨ a ∈ priv) ∧ statut a = "fall" ↔
       a ∈ every ∧ statut a = "fall").
Proof.
  set (every := instances (annonces s)).
  set (pub := filter (λ x : Annonce,
                        int_of_flag (actif x) = 1 ∧ statut x = "fall") every).
  set (priv := filter (λ x : Annonce,
                         int_of_flag (actif x) = 0 ∧ statut x = "fall") every).
  assert (Hunion : ∀ a : Annonce,
             a ∈ pub ∨ a ∈ priv ↔
             annonces s !! id a = Some (cols a) ∧ statut a = "fall").
  { intros a. unfold pub, priv.
    rewrite (select_union (λ x : Annonce, int_of_flag (actif x))
               (λ x : Annonce, statut x) every "fall" a).
    unfold every. rewrite elem_of_instances.
    pose proof (int_of_flag_two_valued (actif a)). tauto. }
  exists pub, priv, every. split_and!; try done.
  - intros a. apply (select_disjoint (λ x : Annonce, int_of_flag (actif x))
                       (λ x : Annonce, statut x) every "fall" a).
  - intros i [Hp Hv].
    apply list_elem_of_fmap in Hp as (a & -> & Ha).
    apply list_elem_of_fmap in Hv as (b & Hid & Hb).
    unfold pub in Ha. unfold priv in Hb.
    apply list_elem_of_filter in Ha as [[Ha1 _] Ha].
    apply list_elem_of_filter in Hb as [[Hb0 _] Hb].
    unfold every in Ha, Hb. apply elem_of_instances in Ha, Hb.
    rewrite <- Hid in Hb. rewrite Ha in Hb. injection Hb as Hcols.
    rewrite Hcols in Ha1. lia.
  - intros a. apply elem_of_instances.
  - intros i c Hc Hst.
    assert (Hin : {| id := i; cols := c |} ∈ every)
      by (by apply elem_of_instances).
    destruct (int_of_flag_two_valued (actif c)) as [H1|H0]; [left|right].
    + split; [|done]. unfold pub. by apply list_elem_of_filter.
    + split; [|done]. unfold priv. by apply list_elem_of_filter.
  - intros a. rewrite Hunion. unfold every. rewrite elem_of_instances. tauto.
Qed.

(** ** Create *)

(** C8. Create always succeeds: it stores one new row under a fresh,
    store-assigned id and returns that row with its id and timestamps.
    Each provided field holds the provided value and each unset field its
    schema default, so with [actif] and [statut] unset (as in the body
    [{title: "Lost wallet"}]) both are at their defaults; [created_at] is
    set; fetching the returned id yields the same record; no existing row
    changes. *)
Theorem create_annonce_persists_provided_fields
    (default_actif : bool) (default_statut : string)
    (default_fields : gmap string scalar)
    (annonce : AnnonceIn) (now : datetime) (s : Store) :
  ∃ (obj : Annonce) (s' : Store),
    create_annonce default_actif default_statut default_fields annonce now s =
      (Ok obj, s') ∧
    annonces s !! id obj = None ∧
    annonce_seq s < id obj ∧
    (∀ j, j ≠ id obj → annonces s' !! j = annonces s !! j) ∧
    devices s' = devices s ∧
    get_annonce (id obj) s' = (Ok obj, s') ∧
    actif obj =
      match in_actif annonce with Some b => b | None => default_actif end ∧
    statut obj =
      match in_statut annonce with Some t => t | None => default_statut end ∧
    (∀ k, fields obj !! k =
          match in_fields annonce !! k with
          | Some v => Some v
          | None => default_fields !! k
          end) ∧
    created_at obj = Some now ∧
    created_at obj ≠ None ∧
    updated_at obj = Some now.
Proof.
  eexists _, _. split; [reflexivity|]. cbn [id cols].
  split_and!; try done.
  - apply next_id_fresh.
  - apply next_id_above_seq.
  - intros j Hj. simpl. apply lookup_insert_ne. congruence.
  - unfold get_annonce, Annonce_get. simpl. by rewrite lookup_insert_eq.
  - intros k. simpl. apply lookup_fields_union.
Qed.

(** The body [{title: "Lost wallet"}] on an empty store, under the
    defaults [actif] = 0 and [statut] = "fall": the record gets id 1 and a
    fetch of id 1 returns it. *)
Example create_lost_wallet :
  (create_annonce false "fall" ∅ lost_wallet 5 empty_store).1 =
    Ok {| id := 1; cols := pending_wallet |} ∧
  (get_annonce 1
     (create_annonce false "fall" ∅ lost_wallet 5 empty_store).2).1 =
    Ok {| id := 1; cols := pending_wallet |}.
Proof. split; reflexivity. Qed.

(** ** Register installation *)

Lemma Device_create_spec
    (default_device_id : scalar) (dev_fields_default : gmap string scalar)
    (device : DeviceIn) (s : Store) :
  ∃ (i : Z) (c : DeviceColumns) (s' : Store),
    get_device_info default_device_id dev_fields_default device s =
      (Ok {| message :=
               "Nous sommes heureux de vous compter parmis nous, utilisateur "
               +:+ str (default default_device_id (in_device_id device)) |},
       s') ∧
    devices s !! i = None ∧
    device_seq s < i ∧
    device_seq s' = i ∧
    devices s' = <[i := c]> (devices s) ∧
    device_id c = default default_device_id (in_device_id device) ∧
    dev_fields c = in_dev_fields device ∪ dev_fields_default ∧
    annonces s' = annonces s ∧
    annonce_seq s' = annonce_seq s.
Proof.
  eexists _, _, _. split; [reflexivity|]. simpl.
  split_and!; try done.
  - apply next_id_fresh.
  - apply next_id_above_seq.
Qed.

(** C9, as stated, fails: registering the device "abc" on an empty store
    stores the row under the newly assigned identifier 1, and the
    confirmation message ends in "abc" and does not contain "1". *)
Lemma get_device_info_message_lacks_assigned_id :
  next_id (device_seq empty_store) (devices empty_store) = 1 ∧
  devices (get_device_info SNone ∅ abc_device empty_store).2 !! 1 =
    Some {| device_id := SStr "abc"; dev_fields := ∅ |} ∧
  (get_device_info SNone ∅ abc_device empty_store).1 =
    Ok {| message :=
            "Nous sommes heureux de vous compter parmis nous, utilisateur abc" |} ∧
  contains "Nous sommes heureux de vous compter parmis nous, utilisateur abc"
           (pretty 1) = false.
Proof. split_and!; reflexivity. Qed.

(** C9, amended. Register-installation always succeeds: it stores one new
    Device row under a fresh store-assigned identifier, whatever the
    [device_id] and whether or not an equal one is already stored, and
    answers with a confirmation message that embeds the [device_id] of the
    stored row (the provided value, or the schema default when unset).
    Registering a second Device with the same [device_id] succeeds again
    and leaves two rows under distinct identifiers, both with that
    [device_id]. *)
Theorem get_device_info_embeds_device_id
    (default_device_id : scalar) (dev_fields_default : gmap string scalar)
    (device : DeviceIn) (metadata : gmap string scalar) (s : Store) :
  ∃ (i1 i2 : Z) (c1 c2 : DeviceColumns) (st : Status) (s1 s2 : Store),
    get_device_info default_device_id dev_fields_default device s =
      (Ok st, s1) ∧
    message st =
      "Nous sommes heureux de vous compter parmis nous, utilisateur "
      +:+ str (device_id c1) ∧
    contains (message st) (str (device_id c1)) = true ∧
    device_id c1 = default default_device_id (in_device_id device) ∧
    devices s !! i1 = None ∧
    devices s1 !! i1 = Some c1 ∧
    (∀ j, j ≠ i1 → devices s1 !! j = devices s !! j) ∧
    size (devices s1) = S (size (devices s)) ∧
    annonces s1 = annonces s ∧
    get_device_info default_device_id dev_fields_default
      {| in_device_id := in_device_id device; in_dev_fields := metadata |} s1 =
      (Ok st, s2) ∧
    i1 ≠ i2 ∧
    devices s2 !! i1 = Some c1 ∧
    devices s2 !! i2 = Some c2 ∧
    device_id c2 = device_id c1 ∧
    size (devices s2) = S (S (size (devices s))).
Proof.
  destruct (Device_create_spec default_device_id dev_fields_default device s)
    as (i1 & c1 & s1 & Hrun1 & Hfresh1 & Hlt1 & Hseq1 & Hdev1 & Hid1 & _ & Ha1 & _).
  destruct (Device_create_spec default_device_id dev_fields_default
              {| in_device_id := in_device_id device;
                 in_dev_fields := metadata |} s1)
    as (i2 & c2 & s2 & Hrun2 & Hfresh2 & Hlt2 & _ & Hdev2 & Hid2 & _).
  simpl in Hrun2, Hid2.
  assert (Hne : i1 ≠ i2) by lia.
  eexists i1, i2, c1, c2, _, s1, s2.
  split; [exact Hrun1|]. cbn [message]. rewrite Hid1. split_and!.
  - done.
  - apply contains_suffix.
  - done.
  - done.
  - rewrite Hdev1. apply lookup_insert_eq.
  - intros j Hj. rewrite Hdev1. apply lookup_insert_ne. congruence.
  - rewrite Hdev1. by apply map_size_insert_None.
  - done.
  - exact Hrun2.
  - done.
  - rewrite Hdev2, lookup_insert_ne by congruence.
    rewrite Hdev1. apply lookup_insert_eq.
  - rewrite Hdev2. apply lookup_insert_eq.
  - congruence.
  - rewrite Hdev2, map_size_insert_None by done.
    rewrite Hdev1. by rewrite map_size_insert_None.
Qed.

(** * Beyond the single handlers *)

(** ** The update and delete steps as table transformers *)

Lemma with_annonces_twice (s : Store) (t t' : gmap Z Columns) :
  with_annonces (with_annonces s t) t' = with_annonces s t'.
Proof. done. Qed.

(** The update step alters the row under the id, if there is one. *)
Lemma filter_update_store (i : Z) (kw : kwargs) (s : Store) :
  (Annonce_filter_update i kw s).2 =
  with_annonces s (alter (apply_kwargs kw) i (annonces s)).
Proof.
  unfold Annonce_filter_update.
  destruct (annonces s !! i) as [c|] eqn:Hc; simpl.
  - f_equal. apply map_eq. intros j.
    destruct (decide (j = i)) as [->|Hj].
    + by rewrite lookup_insert_eq, lookup_alter_eq, Hc.
    + by rewrite lookup_insert_ne, lookup_alter_ne by congruence.
  - by rewrite alter_id', with_annonces_id.
Qed.

Lemma update_annonce_store (i : Z) (a : AnnonceIn) (s : Store) :
  (update_annonce i a s).2 =
  with_annonces s (alter (apply_kwargs (model_dump a)) i (annonces s)).
Proof.
  rewrite <- filter_update_store.
  unfold update_annonce, bind, Annonce_get, Annonce_filter_update.
  destruct (annonces s !! i) as [c|] eqn:Hc; simpl.
  - by rewrite lookup_insert_eq.
  - by rewrite Hc.
Qed.

Lemma update_annonce_result (i : Z) (a : AnnonceIn) (s : Store) :
  (update_annonce i a s).1 =
  match annonces s !! i with
  | Some c => Ok {| id := i; cols := apply_kwargs (model_dump a) c |}
  | None => Raise DoesNotExist
  end.
Proof.
  unfold update_annonce, bind, Annonce_get, Annonce_filter_update.
  destruct (annonces s !! i) as [c|] eqn:Hc; simpl.
  - by rewrite lookup_insert_eq.
  - by rewrite Hc.
Qed.

Lemma delete_annonce_store (i : Z) (s : Store) :
  (delete_annonce i s).2 = with_annonces s (delete i (annonces s)).
Proof.
  unfold delete_annonce, bind, Annonce_filter_delete.
  destruct (annonces s !! i) as [c|] eqn:Hc; simpl; [done|].
  by rewrite delete_id, with_annonces_id.
Qed.

Lemma delete_annonce_result (i : Z) (s : Store) :
  (delete_annonce i s).1 =
  match annonces s !! i with
  | Some _ =>
      Ok {| message := "L'annonce " +:+ pretty i +:+ " a été supprimée" |}
  | None =>
      Raise (HTTPException 404
               ("L'annonce " +:+ pretty i +:+ " n'a pas été trouvée"))
  end.
Proof.
  unfold delete_annonce, bind, Annonce_filter_delete.
  by destruct (annonces s !! i).
Qed.

Lemma publish_annonce_store (i : Z) (now : datetime) (s : Store) :
  (publish_annonce i now s).2 =
  with_annonces s
    (alter (apply_kwargs {| kw_actif := Some (flag 1); kw_statut := None;
                            kw_updated_at := Some now; kw_fields := ∅ |})
       i (annonces s)).
Proof. by rewrite publish_annonce_eq, <- filter_update_store. Qed.

Lemma acchieve_annonce_store (i : Z) (now : datetime) (s : Store) :
  (acchieve_annonce i now s).2 =
  with_annonces s
    (alter (apply_kwargs {| kw_actif := Some (flag 0); kw_statut := Some "pupa";
                            kw_updated_at := Some now; kw_fields := ∅ |})
       i (annonces s)).
Proof. by rewrite acchieve_annonce_eq, <- filter_update_store. Qed.

Lemma apply_kwargs_idemp (kw : kwargs) (c : Columns) :
  apply_kwargs kw (apply_kwargs kw c) = apply_kwargs kw c.
Proof.
  unfold apply_kwargs; simpl. f_equal.
  - by destruct (kw_actif kw).
  - by destruct (kw_statut kw).
  - by destruct (kw_updated_at kw).
  - apply map_eq. intros k. rewrite !lookup_union.
    by destruct (kw_fields kw !! k), (fields c !! k).
Qed.

(** ** Reading *)

(** X1. List-all answers with every stored listing exactly once, as many
    listings as the table has rows, and leaves the store as it was. *)
Theorem get_annonces_lists_every_row (s : Store) :
  ∃ l : list Annonce,
    get_annonces s = (Ok l, s) ∧
    NoDup l ∧
    length l = size (annonces s) ∧
    ∀ a : Annonce, a ∈ l ↔ annonces s !! id a = Some (cols a).
Proof.
  exists (instances (annonces s)). split_and!.
  - done.
  - apply NoDup_instances.
  - unfold instances. by rewrite length_fmap, length_map_to_list.
  - apply elem_of_instances.
Qed.

(** X2. Get-by-id agrees with List-all: it answers with a listing exactly
    when that listing is in the List-all answer under the requested id, it
    ends in NotFound exactly when no listed listing has the id, and it
    never changes the store. *)
Theorem get_annonce_agrees_with_get_annonces (annonce_id : Z) (s : Store) :
  ∃ l : list Annonce,
    get_annonces s = (Ok l, s) ∧
    (get_annonce annonce_id s).2 = s ∧
    (∀ a : Annonce,
       (get_annonce annonce_id s).1 = Ok a ↔ a ∈ l ∧ id a = annonce_id) ∧
    (not_found (get_annonce annonce_id s).1 ↔
     ∀ a : Annonce, a ∈ l → id a ≠ annonce_id).
Proof.
  exists (instances (annonces s)). unfold get_annonce, Annonce_get.
  split; [done|].
  destruct (annonces s !! annonce_id) as [c|] eqn:Hc; simpl.
  - split; [done|]. split.
    + intros a. rewrite elem_of_instances. split.
      * intros [= <-]. done.
      * intros [Ha <-]. destruct a as [i c']; simpl in *. congruence.
    + split; [done|]. intros Hno.
      apply (Hno {| id := annonce_id; cols := c |}); [|done].
      by apply elem_of_instances.
  - split; [done|]. split.
    + intros a. rewrite elem_of_instances. split; [done|].
      intros [Ha <-]. congruence.
    + split; [|done]. intros _ a Ha <-.
      apply elem_of_instances in Ha. congruence.
Qed.

(** ** Repeating and combining writes *)


(** X4. Update is idempotent: sending the same body to the same id a second
    time gives the same response and the same store as sending it once. *)
Theorem update_annonce_idempotent
    (annonce_id : Z) (annonce : AnnonceIn) (s : Store) :
  update_annonce annonce_id annonce (update_annonce annonce_id annonce s).2 =
  update_annonce annonce_id annonce s.
Proof.
  apply injective_projections.
  - rewrite !update_annonce_result, update_annonce_store. simpl.
    rewrite lookup_alter_eq.
    destruct (annonces s !! annonce_id) as [c|]; simpl; [|done].
    by rewrite apply_kwargs_idemp.
  - rewrite !update_annonce_store. simpl.
    rewrite with_annonces_twice, alter_alter_eq.
    f_equal. apply alter_ext. intros c _. simpl. apply apply_kwargs_idemp.
Qed.

(** X5. Mark-resolved overrides Publish: resolving a listing gives the
    same response and the same store whether or not the listing was
    published just before. *)
Theorem acchieve_annonce_after_publish
    (annonce_id : Z) (now now' : datetime) (s : Store) :
  acchieve_annonce annonce_id now (publish_annonce annonce_id now' s).2 =
  acchieve_annonce annonce_id now s.
Proof.
  apply injective_projections.
  - by rewrite !acchieve_annonce_eq.
  - rewrite !acchieve_annonce_store, publish_annonce_store. simpl.
    rewrite with_annonces_twice, alter_alter_eq.
    f_equal. apply alter_ext. intros c _.
    unfold apply_kwargs; simpl. f_equal.
    by rewrite !(left_id_L ∅ (∪)).
Qed.

(** ** Where a listing shows up *)

Lemma result_ids_filter (n : Z) (st : string) (s : Store) (i : Z) :
  i ∈ result_ids (Annonce_filter n st s).1 ↔
  ∃ c, annonces s !! i = Some c ∧ int_of_flag (actif c) = n ∧ statut c = st.
Proof.
  unfold Annonce_filter, result_ids; simpl. rewrite list_elem_of_fmap. split.
  - intros (a & -> & Ha).
    apply list_elem_of_filter in Ha as [[Hn Hst] Ha].
    apply elem_of_instances in Ha. eauto.
  - intros (c & Hc & Hn & Hst). exists {| id := i; cols := c |}.
    split; [done|]. apply list_elem_of_filter. split; [done|].
    by apply elem_of_instances.
Qed.

Lemma result_ids_all (s : Store) (i : Z) :
  i ∈ result_ids (get_annonces s).1 ↔ is_Some (annonces s !! i).
Proof.
  unfold get_annonces, Annonce_all, result_ids; simpl.
  rewrite list_elem_of_fmap. split.
  - intros (a & -> & Ha). apply elem_of_instances in Ha. eauto.
  - intros [c Hc]. exists {| id := i; cols := c |}.
    split; [done|]. by apply elem_of_instances.
Qed.

(** X6. After Publish an existing listing is in the public answer exactly
    when its tag is "fall" (Publish does not touch the tag), and it is never
    in the private answer. *)
Theorem publish_annonce_makes_public
    (annonce_id : Z) (now : datetime) (s : Store) (c : Columns) :
  annonces s !! annonce_id = Some c →
  (annonce_id ∈
     result_ids (get_actives_annonces (publish_annonce annonce_id now s).2).1 ↔
   statut c = "fall") ∧
  annonce_id ∉
    result_ids (get_inactive_annonce (publish_annonce annonce_id now s).2).1.
Proof.
  intros Hc. unfold get_actives_annonces, get_inactive_annonce.
  rewrite !result_ids_filter, publish_annonce_store. simpl.
  rewrite lookup_alter_eq, Hc. simpl. split.
  - split.
    + intros (c' & [= <-] & _ & Hst). exact Hst.
    + intros Hst. eexists. split; [reflexivity|]. done.
  - intros (c' & [= <-] & Hn & _). simpl in Hn. discriminate.
Qed.

Lemma publish_annonce_makes_public_witness :
  (1 ∈ result_ids (get_actives_annonces (publish_annonce 1 9 one_listing).2).1 ↔
   statut pending_wallet = "fall") ∧
  1 ∉ result_ids (get_inactive_annonce (publish_annonce 1 9 one_listing).2).1.
Proof.
  apply (publish_annonce_makes_public 1 9 one_listing pending_wallet).
  reflexivity.
Defined.

(** X7. After Mark-resolved the listing is in neither the public nor the
    private answer, while List-all has it exactly if it had it before. *)
Theorem acchieve_annonce_unlists (annonce_id : Z) (now : datetime) (s : Store) :
  (annonce_id ∉
     result_ids (get_actives_annonces (acchieve_annonce annonce_id now s).2).1) ∧
  (annonce_id ∉
     result_ids (get_inactive_annonce (acchieve_annonce annonce_id now s).2).1) ∧
  (annonce_id ∈ result_ids (get_annonces (acchieve_annonce annonce_id now s).2).1 ↔
   annonce_id ∈ result_ids (get_annonces s).1).
Proof.
  unfold get_actives_annonces, get_inactive_annonce.
  rewrite !result_ids_filter, !result_ids_all, acchieve_annonce_store. simpl.
  rewrite lookup_alter_eq.
  destruct (annonces s !! annonce_id) as [c|]; simpl; split_and!.
  - intros (c' & [= <-] & _ & Hst). discriminate.
  - intros (c' & [= <-] & _ & Hst). discriminate.
  - split; eauto.
  - intros (c' & [=] & _).
  - intros (c' & [=] & _).
  - done.
Qed.

(** X8. Update can reopen any existing listing, resolved ones included:
    with a body that sets [actif] and [statut] to 1 and "fall" it answers
    with the listing so set, and the listing is in the public answer
    afterwards. *)
Theorem update_annonce_reopens
    (annonce_id : Z) (f : gmap string scalar) (s : Store) (c : Columns) :
  annonces s !! annonce_id = Some c →
  (∃ a : Annonce,
     (update_annonce annonce_id (reopen f) s).1 = Ok a ∧
     id a = annonce_id ∧ int_of_flag (actif a) = 1 ∧ statut a = "fall") ∧
  annonce_id ∈
    result_ids
      (get_actives_annonces (update_annonce annonce_id (reopen f) s).2).1.
Proof.
  intros Hc. split.
  - rewrite update_annonce_result, Hc. by eexists.
  - unfold get_actives_annonces.
    rewrite result_ids_filter, update_annonce_store. simpl.
    rewrite lookup_alter_eq, Hc. simpl. by eexists.
Qed.

Lemma update_annonce_reopens_witness :
  (∃ a : Annonce,
     (update_annonce 1 (reopen ∅) one_resolved).1 = Ok a ∧
     id a = 1 ∧ int_of_flag (actif a) = 1 ∧ statut a = "fall") ∧
  1 ∈ result_ids (get_actives_annonces (update_annonce 1 (reopen ∅) one_resolved).2).1.
Proof.
  apply (update_annonce_reopens 1 ∅ one_resolved resolved_wallet).
  reflexivity.
Defined.

(** ** The service as a whole *)

Section Service.

Variable default_actif : bool.
Variable default_statut : string.
Variable default_fields : gmap string scalar.
Variable default_device_id : scalar.
Variable dev_fields_default : gmap string scalar.

Local Abbreviation create :=
  (create_annonce default_actif default_statut default_fields).
Local Abbreviation install :=
  (get_device_info default_device_id dev_fields_default).
Local Abbreviation serve1 :=
  (serve default_actif default_statut default_fields
     default_device_id dev_fields_default).
Local Abbreviation serve_seq :=
  (serve_all default_actif default_statut default_fields
     default_device_id dev_fields_default).

Lemma create_annonce_store (annonce : AnnonceIn) (now : datetime) (s : Store) :
  (create annonce now s).2 =
  {| annonces :=
       <[next_id (annonce_seq s) (annonces s) :=
           new_columns default_actif default_statut default_fields
             (model_dump annonce) now]> (annonces s);
     annonce_seq := next_id (annonce_seq s) (annonces s);
     devices := devices s; device_seq := device_seq s |}.
Proof. done. Qed.

Lemma get_device_info_store (device : DeviceIn) (s : Store) :
  ∃ c : DeviceColumns,
    (install device s).2 =
    {| annonces := annonces s; annonce_seq := annonce_seq s;
       devices := <[next_id (device_seq s) (devices s) := c]> (devices s);
       device_seq := next_id (device_seq s) (devices s) |}.
Proof. by eexists. Qed.

(** The store a request leaves is the store its handler leaves. *)
Lemma serve_store (r : request) (now : datetime) (s : Store) :
  (serve1 r now s).2 =
  match r with
  | GET_annonces | GET_annonces_public | GET_annonces_private
  | GET_annonce _ => s
  | POST_annonce annonce => (create annonce now s).2
  | PUT_annonce i annonce => (update_annonce i annonce s).2
  | GET_annonce_publier i => (publish_annonce i now s).2
  | GET_annonce_done i => (acchieve_annonce i now s).2
  | DELETE_annonce i => (delete_annonce i s).2
  | POST_installation device => (install device s).2
  end.
Proof.
  destruct r; unfold serve, bind; try done.
  - unfold get_annonce, Annonce_get. by destruct (annonces s !! annonce_id).
  - by destruct (update_annonce annonce_id annonce s) as [[?|?] ?].
  - by destruct (publish_annonce annonce_id now s) as [[?|?] ?].
  - by destruct (acchieve_annonce annonce_id now s) as [[?|?] ?].
  - by destruct (delete_annonce annonce_id s) as [[?|?] ?].
Qed.

(** X9. Create followed by Delete of the returned id is a round trip on
    the listing table: both succeed, the table is the one before, the
    device table is untouched, and the id is not found afterwards. *)
Theorem create_annonce_then_delete
    (annonce : AnnonceIn) (now : datetime) (s : Store) :
  ∃ (obj : Annonce) (s1 : Store) (st : Status) (s2 : Store),
    create annonce now s = (Ok obj, s1) ∧
    delete_annonce (id obj) s1 = (Ok st, s2) ∧
    annonces s2 = annonces s ∧
    devices s2 = devices s ∧
    not_found (get_annonce (id obj) s2).1.
Proof.
  set (i := next_id (annonce_seq s) (annonces s)).
  assert (Hfresh : annonces s !! i = None) by apply next_id_fresh.
  exists {| id := i;
            cols := new_columns default_actif default_statut default_fields
                      (model_dump annonce) now |},
         (create annonce now s).2,
         {| message := "L'annonce " +:+ pretty i +:+ " a été supprimée" |},
         (delete_annonce i (create annonce now s).2).2.
  split; [done|]. cbn [id]. split.
  - apply injective_projections; [|done].
    rewrite delete_annonce_result, create_annonce_store. simpl.
    fold i. by rewrite lookup_insert_eq.
  - rewrite delete_annonce_store, create_annonce_store. simpl. fold i.
    rewrite delete_insert_id by done. split_and!; try done.
    unfold get_annonce, Annonce_get. simpl. by rewrite Hfresh.
Qed.

(** X10. Only Create and Delete change which listing ids exist: Create
    adds exactly one id that was not in use, Delete removes exactly the
    requested id (nothing if it was absent), and every other request
    leaves the set of ids as it was. *)
Theorem serve_listing_ids (r : request) (now : datetime) (s : Store) :
  match r with
  | POST_annonce _ =>
      ∃ i : Z,
        (i ∉ dom (annonces s)) ∧
        dom (annonces (serve1 r now s).2) = {[i]} ∪ dom (annonces s)
  | DELETE_annonce i =>
      dom (annonces (serve1 r now s).2) = dom (annonces s) ∖ {[i]}
  | _ => dom (annonces (serve1 r now s).2) = dom (annonces s)
  end.
Proof.
  rewrite serve_store. destruct r; try done.
  - exists (next_id (annonce_seq s) (annonces s)). split.
    + apply not_elem_of_dom, next_id_fresh.
    + rewrite create_annonce_store. simpl. apply dom_insert_L.
  - rewrite update_annonce_store. simpl. apply dom_alter_L.
  - rewrite publish_annonce_store. simpl. apply dom_alter_L.
  - rewrite acchieve_annonce_store. simpl. apply dom_alter_L.
  - rewrite delete_annonce_store. simpl. apply dom_delete_L.
Qed.

Lemma serve_devices (r : request) (now : datetime) (s : Store) :
  match r with
  | POST_installation _ =>
      ∃ (i : Z) (c : DeviceColumns),
        devices s !! i = None ∧
        devices (serve1 r now s).2 = <[i := c]> (devices s)
  | _ => devices (serve1 r now s).2 = devices s
  end.
Proof.
  rewrite serve_store. destruct r; try done.
  - by rewrite update_annonce_store.
  - by rewrite publish_annonce_store.
  - by rewrite acchieve_annonce_store.
  - by rewrite delete_annonce_store.
  - destruct (get_device_info_store device s) as [c ->]. simpl.
    eexists _, c. split; [apply next_id_fresh | done].
Qed.

(** X11. Device rows are permanent: whatever requests are served, every
    Device row stays in the table unchanged, and the table grows by exactly
    one row per installation request. *)
Theorem serve_all_keeps_devices
    (rs : list (request * datetime)) (s : Store) :
  (∀ (i : Z) (d : DeviceColumns),
     devices s !! i = Some d → devices (serve_seq rs s) !! i = Some d) ∧
  size (devices (serve_seq rs s)) = (size (devices s) + installations rs)%nat.
Proof.
  revert s. induction rs as [|[r now] rs IH]; intros s; simpl.
  - split; [done | lia].
  - destruct (IH (serve1 r now s).2) as [IHrows IHsize].
    pose proof (serve_devices r now s) as Hstep.
    destruct r; try (rewrite Hstep in IHrows, IHsize; by split).
    destruct Hstep as (i & c & Hfresh & Hdev). split.
    + intros j d Hj. apply IHrows. rewrite Hdev.
      rewrite lookup_insert_ne; [done|]. intros ->. congruence.
    + rewrite IHsize, Hdev, map_size_insert_None by done. lia.
Qed.

Lemma serve_keeps_tag
    (i : Z) (r : request) (now : datetime) (s : Store) (c : Columns) :
  rewrites i r = false →
  annonces s !! i = Some c →
  ∃ c' : Columns,
    annonces (serve1 r now s).2 !! i = Some c' ∧
    (statut c' = statut c ∨ statut c' = "pupa").
Proof.
  intros Hr Hc. rewrite serve_store. destruct r; simpl in Hr; eauto.
  - rewrite create_annonce_store. simpl. exists c. split; [|by left].
    rewrite lookup_insert_ne; [done|].
    intros Heq. pose proof (next_id_fresh (annonce_seq s) (annonces s)).
    congruence.
  - apply bool_decide_eq_false in Hr.
    rewrite update_annonce_store. simpl.
    rewrite lookup_alter_ne by done. eauto.
  - rewrite publish_annonce_store. simpl.
    destruct (decide (annonce_id = i)) as [->|Hne].
    + rewrite lookup_alter_eq, Hc. simpl. eauto.
    + rewrite lookup_alter_ne by done. eauto.
  - rewrite acchieve_annonce_store. simpl.
    destruct (decide (annonce_id = i)) as [->|Hne].
    + rewrite lookup_alter_eq, Hc. simpl. eauto.
    + rewrite lookup_alter_ne by done. eauto.
  - apply bool_decide_eq_false in Hr.
    rewrite delete_annonce_store. simpl.
    rewrite lookup_delete_ne by done. eauto.
Qed.

(** X13. Only an Update can reopen a resolved listing: through any
    sequence of requests that neither updates nor deletes it, a listing
    tagged "pupa" stays in the table tagged "pupa", and so stays out of the
    public and the private answers. *)
Theorem serve_all_keeps_resolved
    (i : Z) (rs : list (request * datetime)) (s : Store) (c : Columns) :
  annonces s !! i = Some c →
  statut c = "pupa" →
  Forall (λ rt, rewrites i rt.1 = false) rs →
  (∃ c' : Columns,
     annonces (serve_seq rs s) !! i = Some c' ∧ statut c' = "pupa") ∧
  (i ∉ result_ids (get_actives_annonces (serve_seq rs s)).1) ∧
  (i ∉ result_ids (get_inactive_annonce (serve_seq rs s)).1).
Proof.
  intros Hc Hst Hrs.
  assert (Hrow : ∃ c', annonces (serve_seq rs s) !! i = Some c' ∧
                       statut c' = "pupa").
  { revert s c Hc Hst.
    induction Hrs as [|[r now] rs Hr _ IH]; intros s c Hc Hst; simpl.
    - eauto.
    - destruct (serve_keeps_tag i r now s c Hr Hc) as (c' & Hc' & Htag).
      apply (IH _ c' Hc'). destruct Htag; congruence. }
  split; [exact Hrow|].
  destruct Hrow as (c' & Hc' & Hst').
  unfold get_actives_annonces, get_inactive_annonce.
  rewrite !result_ids_filter. split.
  - intros (c2 & Hc2 & _ & Hfall). rewrite Hc' in Hc2.
    injection Hc2 as <-. rewrite Hst' in Hfall. discriminate.
  - intros (c2 & Hc2 & _ & Hfall). rewrite Hc' in Hc2.
    injection Hc2 as <-. rewrite Hst' in Hfall. discriminate.
Qed.

End Service.

Lemma serve_all_keeps_resolved_witness :
  (∃ c' : Columns,
     annonces (serve_all false "fall" ∅ SNone ∅ busy_day one_resolved) !! 1 =
       Some c' ∧
     statut c' = "pupa") ∧
  (1 ∉ result_ids
         (get_actives_annonces
            (serve_all false "fall" ∅ SNone ∅ busy_day one_resolved)).1) ∧
  (1 ∉ result_ids
         (get_inactive_annonce
            (serve_all false "fall" ∅ SNone ∅ busy_day one_resolved)).1).
Proof.
  apply (serve_all_keeps_resolved false "fall" ∅ SNone ∅
           1 busy_day one_resolved resolved_wallet).
  - reflexivity.
  - reflexivity.
  - unfold busy_day. repeat constructor.
Defined.
